(** * YandexSTTClient: a shallow embedding of [output/yandex_stt.py]

    The client streams an audio file to a speech recogniser and folds the
    recognition events that come back into a transcript.  Python [int] is
    [Z], [bytes] is [list byte], [str] is the [string] of its UTF-8
    encoding (so [len], which counts code points, is not [String.length]),
    a Python list is a [list] that grows at its end, and a raised exception
    is a value of [exn] carried by [Raise] or [Throw]. *)

From Stdlib Require Import List String ZArith Lia Bool Arith.
From Stdlib Require Import Strings.Byte.
Import ListNotations.
Local Open Scope string_scope.
Local Open Scope list_scope.
Local Open Scope Z_scope.

(** ** Process-wide settings ([config.settings.settings]) *)

Module settings.
Record t := {
  SAMPLE_RATE : Z;
  AUDIO_CHANNELS : Z;
  CHUNK_SIZE : Z;
  YANDEX_ENDPOINT : string
}.
End settings.

(** ** Exceptions *)

Inductive exn :=
| Rendezvous (code details : string)     (* grpc._channel._Rendezvous, with _state.code and _state.details *)
| OSError (filename : string)            (* open(...) on a path that cannot be opened *)
| ValueError                             (* f.read(size) with size below -1 *)
| OtherException (cls : string).         (* anything else an iterator may raise *)

Inductive outcome (A : Type) :=
| Return (a : A)
| Raise (e : exn).
Arguments Return {A} a.
Arguments Raise {A} e.

(** ** The protobuf messages the client builds and reads ([stt_pb2]) *)

Module stt_pb2.

Inductive AudioEncoding := AUDIO_ENCODING_UNSPECIFIED | LINEAR16_PCM.
Inductive TextNormalization :=
  TEXT_NORMALIZATION_UNSPECIFIED | TEXT_NORMALIZATION_ENABLED | TEXT_NORMALIZATION_DISABLED.
Inductive LanguageRestrictionType :=
  LANGUAGE_RESTRICTION_TYPE_UNSPECIFIED | WHITELIST | BLACKLIST.
Inductive AudioProcessingType :=
  AUDIO_PROCESSING_TYPE_UNSPECIFIED | REAL_TIME | FULL_DATA.

Record RawAudio := {
  audio_encoding : AudioEncoding;
  sample_rate_hertz : Z;
  audio_channel_count : Z
}.

Record AudioFormatOptions := { raw_audio : RawAudio }.

Record TextNormalizationOptions := {
  text_normalization_mode : TextNormalization;
  profanity_filter : bool;
  literature_text : bool
}.

Record LanguageRestrictionOptions := {
  restriction_type : LanguageRestrictionType;
  language_code : list string
}.

Record RecognitionModelOptions := {
  audio_format : AudioFormatOptions;
  text_normalization : TextNormalizationOptions;
  language_restriction : LanguageRestrictionOptions;
  audio_processing_type : AudioProcessingType
}.

Record StreamingOptions := { recognition_model : RecognitionModelOptions }.

Record AudioChunk := { data : list byte }.

(** Outbound message: exactly one of the two members is set. *)
Inductive StreamingRequest :=
| session_options (o : StreamingOptions)
| chunk (c : AudioChunk).

Record Alternative := { text : string }.
Record AlternativeUpdate := { alternatives : list Alternative }.
Record FinalRefinement := { normalized_text : AlternativeUpdate }.

(** Inbound message: the oneof [Event].  [other_event] stands for the
    members the client never reads, by field name; [no_event] is a
    message with no member set. *)
Inductive StreamingResponse :=
| partial_event (u : AlternativeUpdate)
| final_event (u : AlternativeUpdate)
| final_refinement_event (r : FinalRefinement)
| other_event (field : string)
| no_event.

Definition empty_update : AlternativeUpdate := {| alternatives := [] |}.
Definition empty_alternative : Alternative := {| text := "" |}.

(** [response.WhichOneof('Event')]: the name of the member set, or None. *)
Definition WhichOneof (r : StreamingResponse) : option string :=
  match r with
  | partial_event _ => Some "partial"
  | final_event _ => Some "final"
  | final_refinement_event _ => Some "final_refinement"
  | other_event f => Some f
  | no_event => None
  end.

(** Reading a member that is not set gives the default (empty) message. *)
Definition partial (r : StreamingResponse) : AlternativeUpdate :=
  match r with partial_event u => u | _ => empty_update end.
Definition final (r : StreamingResponse) : AlternativeUpdate :=
  match r with final_event u => u | _ => empty_update end.
Definition final_refinement (r : StreamingResponse) : FinalRefinement :=
  match r with
  | final_refinement_event x => x
  | _ => {| normalized_text := empty_update |}
  end.

(** [alts[0]], read only under a guard [len(alts) > 0]. *)
Definition first (alts : list Alternative) : Alternative :=
  nth 0 alts empty_alternative.

End stt_pb2.
Import stt_pb2.

(** [event_type == 'name'] for the value [WhichOneof] returned. *)
Definition is_event (event_type : option string) (name : string) : bool :=
  match event_type with
  | Some f => String.eqb f name
  | None => false
  end.

(** ** Logger calls, kept as data *)

Inductive level := DEBUG | INFO | ERROR.

Inductive message :=
| MsgStart (audio_file_path : string)
| MsgIntermediate (text : string)
| MsgFinalSegment (count : nat) (text : string)
| MsgRefined (refined : string)
| MsgGrpcError (code details : string)
| MsgDone (segments_count : nat) (chars : nat).

Definition log_entry : Type := level * message.

(** ** An open binary file and [f.read(size)] *)

Record file := { content : list byte; pos : nat }.

(** [f.read(size)] on a regular file opened with 'rb': the next [size]
    bytes, fewer only at the end of the file; everything that is left when
    [size] is -1; a ValueError, with nothing read, when [size] is below
    -1. *)
Definition read (size : Z) (f : file) : outcome (list byte * file) :=
  if size <? -1 then Raise ValueError
  else
    let rest := skipn (pos f) (content f) in
    let got := if size <? 0 then rest else firstn (Z.to_nat size) rest in
    Return (got, {| content := content f; pos := (pos f + List.length got)%nat |}).

(** ** [len] of a [str]

    A [str] is kept as its UTF-8 encoding; its length in code points is the
    number of bytes that do not continue a character (those not of the
    form 10xxxxxx). *)

Definition is_continuation (c : Ascii.ascii) : bool :=
  match c with
  | Ascii.Ascii _ _ _ _ _ _ b6 b7 => b7 && negb b6
  end.

Fixpoint len (s : string) : nat :=
  match s with
  | EmptyString => O
  | String c s' => ((if is_continuation c then 0 else 1) + len s')%nat
  end.

(** ** The client *)

Record YandexSTTClient := { api_key : string }.

Section Client.

Variable cfg : settings.t.

(** What [open(path, 'rb')] finds: the bytes of the file, or nothing. *)
Variable fs : string -> option (list byte).

(** The message the call builds.  The two numbers are copied from the
    settings; the message type bounds them ([fits_int64]), the function
    itself checks nothing. *)
Definition _create_streaming_options (self : YandexSTTClient) : StreamingOptions :=
  {| recognition_model :=
       {| audio_format :=
            {| raw_audio :=
                 {| audio_encoding := LINEAR16_PCM;
                    sample_rate_hertz := settings.SAMPLE_RATE cfg;
                    audio_channel_count := settings.AUDIO_CHANNELS cfg |} |};
          text_normalization :=
            {| text_normalization_mode := TEXT_NORMALIZATION_ENABLED;
               profanity_filter := true;
               literature_text := false |};
          language_restriction :=
            {| restriction_type := WHITELIST;
               language_code := ["ru-RU"] |};
          audio_processing_type := REAL_TIME |} |}.

(** *** [_audio_generator] as a resumable computation

    A generator object is a state and a [next] function.  The states are
    the places where the body can be suspended. *)

Inductive gen_state :=
| GStart                (* created, body not entered *)
| GAfterOptions         (* suspended at the first yield *)
| GInLoop (f : file)    (* suspended at the yield in the read loop *)
| GDone.                (* returned or raised *)

Inductive gen_out :=
| Yield (m : StreamingRequest)
| Stop                  (* StopIteration *)
| Throw (e : exn).

(** One turn of the [while True] loop, from the read to the yield. *)
Definition read_turn (f : file) : gen_out * gen_state :=
  match read (settings.CHUNK_SIZE cfg) f with
  | Raise e => (Throw e, GDone)
  | Return (got, f') =>
      match got with
      | [] => (Stop, GDone)
      | _ :: _ => (Yield (chunk {| data := got |}), GInLoop f')
      end
  end.

Definition gen_next (self : YandexSTTClient) (audio_file_path : string)
           (st : gen_state) : gen_out * gen_state :=
  match st with
  | GStart =>
      (Yield (session_options (_create_streaming_options self)), GAfterOptions)
  | GAfterOptions =>
      match fs audio_file_path with
      | None => (Throw (OSError audio_file_path), GDone)
      | Some bytes => read_turn {| content := bytes; pos := 0 |}
      end
  | GInLoop f => read_turn f
  | GDone => (Stop, GDone)
  end.

(** What a consumer sees when it calls [next] at most [fuel] times: the
    messages, and how the generator ended ([None]: still running). *)
Fixpoint drain (self : YandexSTTClient) (audio_file_path : string)
         (fuel : nat) (st : gen_state) : list StreamingRequest * option gen_out :=
  match fuel with
  | O => ([], None)
  | S fuel' =>
      match gen_next self audio_file_path st with
      | (Yield m, st') =>
          let '(ms, fin) := drain self audio_file_path fuel' st' in
          (m :: ms, fin)
      | (fin, _) => ([], Some fin)
      end
  end.

(** The whole outbound stream: [len(file) + 2] calls of [next] are enough
    ([outbound_terminates]). *)
Definition outbound (self : YandexSTTClient) (audio_file_path : string)
  : list StreamingRequest * option gen_out :=
  let size := match fs audio_file_path with
              | Some bytes => List.length bytes
              | None => O
              end in
  drain self audio_file_path (S (S size)) GStart.

(** *** The receive side of [transcribe]

    The iterator that [stub.RecognizeStreaming] returns delivers some
    responses and then either ends or raises. *)

Record inbound := {
  events : list StreamingResponse;
  closing : option exn          (* None: the server ended the stream *)
}.

(** The duplex call: the channel's endpoint, the request generator (its
    [next]; it starts in [GStart]) and the call metadata go in, the
    response iterator comes out.  What the server answers is not the
    client's to decide, so the call is a parameter. *)
Variable RecognizeStreaming :
  string -> (gen_state -> gen_out * gen_state) -> list (string * string) -> inbound.

(** The two lists the loop appends to, and the logger calls made so far. *)
Record loop_state := {
  segments : list string;
  intermediate_texts : list string;
  logged : list log_entry
}.

(** The body of [for response in stream]. *)
Definition loop_body (save_intermediate : bool) (st : loop_state)
           (response : StreamingResponse) : loop_state :=
  let event_type := WhichOneof response in
  if is_event event_type "partial"
     && (0 <? List.length (alternatives (partial response)))%nat then
    let text := text (first (alternatives (partial response))) in
    if save_intermediate then
      {| segments := segments st;
         intermediate_texts := intermediate_texts st ++ [text];
         logged := logged st ++ [(DEBUG, MsgIntermediate text)] |}
    else st
  else if is_event event_type "final"
          && (0 <? List.length (alternatives (final response)))%nat then
    let text := text (first (alternatives (final response))) in
    let segments' := segments st ++ [text] in
    {| segments := segments';
       intermediate_texts := intermediate_texts st;
       logged := logged st ++ [(INFO, MsgFinalSegment (List.length segments') text)] |}
  else if is_event event_type "final_refinement" then
    if (0 <? List.length
               (alternatives (normalized_text (final_refinement response))))%nat then
      let refined :=
        text (first (alternatives (normalized_text (final_refinement response)))) in
      {| segments := segments st;
         intermediate_texts := intermediate_texts st;
         logged := logged st ++ [(DEBUG, MsgRefined refined)] |}
    else st
  else st.

Definition run_loop (save_intermediate : bool) (st : loop_state)
           (responses : list StreamingResponse) : loop_state :=
  fold_left (loop_body save_intermediate) responses st.

(** From [segments = []] to the [return], for a given response iterator.
    The [except] clause logs a [_Rendezvous] and re-raises it; any other
    exception leaves the function untouched. *)
Definition consume (stream : inbound) (save_intermediate : bool)
           (log0 : list log_entry)
  : outcome (string * list string) * list log_entry :=
  let st := run_loop save_intermediate
              {| segments := []; intermediate_texts := []; logged := log0 |}
              (events stream) in
  match closing stream with
  | Some (Rendezvous code details as err) =>
      (Raise err, logged st ++ [(ERROR, MsgGrpcError code details)])
  | Some err => (Raise err, logged st)
  | None =>
      let full_text := String.concat " " (segments st) in
      (Return (full_text, segments st),
       logged st ++ [(INFO, MsgDone (List.length (segments st))
                                    (len full_text))])
  end.

(** [stub.RecognizeStreaming(self._audio_generator(path), metadata=...)]
    on the channel to [settings.YANDEX_ENDPOINT]. *)
Definition open_stream (self : YandexSTTClient) (audio_file_path : string)
  : inbound :=
  RecognizeStreaming (settings.YANDEX_ENDPOINT cfg)
                     (gen_next self audio_file_path)
                     [("authorization", ("Api-Key " ++ api_key self)%string)].

Definition transcribe (self : YandexSTTClient) (audio_file_path : string)
           (save_intermediate : bool)
  : outcome (string * list string) * list log_entry :=
  let log0 := [(INFO, MsgStart audio_file_path)] in
  let stream := open_stream self audio_file_path in
  consume stream save_intermediate log0.

End Client.


(** ** The if/elif chain seen as a classifier

    The loop has no classifier of its own: the guards of the chain decide
    which branch handles a response.  [classify] names the branch,
    [apply_event] is the branch body, and [loop_body_classify] shows the
    two together are the loop body. *)

Inductive RecognitionEvent :=
| Partial (text : string)
| Final (text : string)
| FinalRefinementEvent (normalized : string)
| Unknown (raw : StreamingResponse).

Definition classify (response : StreamingResponse) : RecognitionEvent :=
  match WhichOneof response with
  | Some discriminant =>
      if String.eqb discriminant "partial" then
        match alternatives (partial response) with
        | a :: _ => Partial (text a)
        | [] => Unknown response
        end
      else if String.eqb discriminant "final" then
        match alternatives (final response) with
        | a :: _ => Final (text a)
        | [] => Unknown response
        end
      else if String.eqb discriminant "final_refinement" then
        match alternatives (normalized_text (final_refinement response)) with
        | a :: _ => FinalRefinementEvent (text a)
        | [] => Unknown response
        end
      else Unknown response
  | None => Unknown response
  end.

Definition apply_event (save_intermediate : bool) (st : loop_state)
           (ev : RecognitionEvent) : loop_state :=
  match ev with
  | Partial text =>
      if save_intermediate then
        {| segments := segments st;
           intermediate_texts := intermediate_texts st ++ [text];
           logged := logged st ++ [(DEBUG, MsgIntermediate text)] |}
      else st
  | Final text =>
      {| segments := segments st ++ [text];
         intermediate_texts := intermediate_texts st;
         logged := logged st
                   ++ [(INFO, MsgFinalSegment (List.length (segments st ++ [text])) text)] |}
  | FinalRefinementEvent refined =>
      {| segments := segments st;
         intermediate_texts := intermediate_texts st;
         logged := logged st ++ [(DEBUG, MsgRefined refined)] |}
  | Unknown _ => st
  end.

Definition is_final (response : StreamingResponse) : bool :=
  match classify response with
  | Final _ => true
  | _ => false
  end.

(** The texts of the Final events of a sequence, in the order received,
    repetitions kept. *)
Definition final_texts (responses : list StreamingResponse) : list string :=
  flat_map (fun r => match classify r with
                     | Final text => [text]
                     | _ => []
                     end) responses.

(** The responses whose discriminant is [final]. *)
Definition final_discriminated (responses : list StreamingResponse)
  : list StreamingResponse :=
  filter (fun r => is_event (WhichOneof r) "final") responses.

(** ceil(a / b) for positive [b]. *)
Definition ceil_div (a b : Z) : Z := (a + b - 1) / b.

(** The length of the last piece when [len > 0] bytes are cut into pieces
    of [size]: [len mod size], or [size] when that is zero. *)
Definition tail_length (len size : Z) : Z :=
  if len mod size =? 0 then size else len mod size.

Definition chunk_of (bytes : list byte) : StreamingRequest :=
  chunk {| data := bytes |}.

Definition is_chunk (m : StreamingRequest) : bool :=
  match m with
  | chunk _ => true
  | session_options _ => false
  end.

(** Cutting a byte string into pieces of [size] bytes, the last one
    shorter when the length is no multiple of [size]; [fuel] bounds the
    number of pieces. *)
Fixpoint split_chunks (fuel size : nat) (bytes : list byte) : list (list byte) :=
  match fuel with
  | O => []
  | S fuel' =>
      match bytes with
      | [] => []
      | _ :: _ => firstn size bytes :: split_chunks fuel' size (skipn size bytes)
      end
  end.

Definition chunks (size : nat) (bytes : list byte) : list (list byte) :=
  split_chunks (List.length bytes) size bytes.

(** The responses that carry nothing the loop can use: discriminant
    [partial], [final] or [final_refinement] with no alternative, a
    discriminant other than these three, or no member set at all. *)
Definition sparse_or_unread (response : StreamingResponse) : bool :=
  let event_type := WhichOneof response in
  if is_event event_type "partial" then
    (List.length (alternatives (partial response)) =? 0)%nat
  else if is_event event_type "final" then
    (List.length (alternatives (final response)) =? 0)%nat
  else if is_event event_type "final_refinement" then
    (List.length (alternatives (normalized_text (final_refinement response)))
     =? 0)%nat
  else true.

(** The values an int64 field of a protobuf message can hold.  The fields
    [sample_rate_hertz] and [audio_channel_count] of [RawAudio] are int64
    fields in the generated [stt_pb2] module; building the message with a
    value outside this range raises instead. *)
Definition fits_int64 (z : Z) : Prop := - 2 ^ 63 <= z < 2 ^ 63.

(** ** What the loop leaves besides the segments *)

(** The texts of the Partial events of a sequence, in the order received. *)
Definition partial_texts (responses : list StreamingResponse) : list string :=
  flat_map (fun r => match classify r with
                     | Partial text => [text]
                     | _ => []
                     end) responses.

(** A logger call made for a partial result. *)
Definition is_intermediate (entry : log_entry) : bool :=
  match snd entry with
  | MsgIntermediate _ => true
  | _ => false
  end.

Definition without_intermediate (log : list log_entry) : list log_entry :=
  filter (fun entry => negb (is_intermediate entry)) log.

(** The (count, text) pairs of the "final segment added" logger calls. *)
Definition final_segment_entries (log : list log_entry) : list (nat * string) :=
  flat_map (fun entry => match snd entry with
                         | MsgFinalSegment count text => [(count, text)]
                         | _ => []
                         end) log.

Definition is_error (entry : log_entry) : bool :=
  match fst entry with
  | ERROR => true
  | _ => false
  end.

Definition errors_logged (log : list log_entry) : list log_entry :=
  filter is_error log.

(** A response cut down to what the loop reads of it: the first
    alternative of the member that is set. *)
Definition keep_first (u : AlternativeUpdate) : AlternativeUpdate :=
  {| alternatives := firstn 1 (alternatives u) |}.

Definition first_alternative_only (response : StreamingResponse)
  : StreamingResponse :=
  match response with
  | partial_event u => partial_event (keep_first u)
  | final_event u => final_event (keep_first u)
  | final_refinement_event r =>
      final_refinement_event {| normalized_text := keep_first (normalized_text r) |}
  | other_event field => other_event field
  | no_event => no_event
  end.

(** The state of the request generator after [n] calls of [next]. *)
Fixpoint state_after (cfg : settings.t) (fs : string -> option (list byte))
         (self : YandexSTTClient) (audio_file_path : string) (n : nat)
  : gen_state :=
  match n with
  | O => GStart
  | S n' =>
      snd (gen_next cfg fs self audio_file_path
                    (state_after cfg fs self audio_file_path n'))
  end.

(** The number of bytes of the file that [open] finds, none when it finds
    no file; [outbound] calls [next] this many times and twice more. *)
Definition file_size (fs : string -> option (list byte))
           (audio_file_path : string) : nat :=
  match fs audio_file_path with
  | Some bytes => List.length bytes
  | None => O
  end.

(** ** Sample data for the examples *)

Module Sample.

Definition cfg : settings.t :=
  {| settings.SAMPLE_RATE := 8000;
     settings.AUDIO_CHANNELS := 1;
     settings.CHUNK_SIZE := 4;
     settings.YANDEX_ENDPOINT := "stt.api.cloud.yandex.net:443" |}.

(** Settings with a sample rate and a channel count of zero. *)
Definition zero_cfg : settings.t :=
  {| settings.SAMPLE_RATE := 0;
     settings.AUDIO_CHANNELS := 0;
     settings.CHUNK_SIZE := 4;
     settings.YANDEX_ENDPOINT := "stt.api.cloud.yandex.net:443" |}.

Definition client : YandexSTTClient := {| api_key := "secret" |}.

(** Ten bytes: two and a half chunks of four. *)
Definition ten_bytes : list byte :=
  [x00; x01; x02; x03; x04; x05; x06; x07; x08; x09].

Definition fs_ten : string -> option (list byte) := fun _ => Some ten_bytes.
Definition fs_empty : string -> option (list byte) := fun _ => Some [].

Definition said (word : string) : AlternativeUpdate :=
  {| alternatives := [{| text := word |}] |}.

Definition hello_world : list StreamingResponse :=
  [partial_event (said "hel"); partial_event (said "hello");
   final_event (said "hello");
   partial_event (said "wor"); final_event (said "world")].

Definition refinement : StreamingResponse :=
  final_refinement_event {| normalized_text := said "Hello." |}.

Definition quiet : list StreamingResponse :=
  [partial_event (said "hm"); refinement; other_event "eou_update";
   final_event empty_update; no_event].

(** Three Final events among partials, a refinement and other events. *)
Definition interleaved : list StreamingResponse :=
  hello_world
    ++ [refinement; other_event "eou_update"; no_event;
        partial_event empty_update]
    ++ [final_event (said "again")].

Definition idle : loop_state :=
  {| segments := []; intermediate_texts := []; logged := [] |}.

Definition negative_chunk_cfg : settings.t :=
  {| settings.SAMPLE_RATE := 8000;
     settings.AUDIO_CHANNELS := 1;
     settings.CHUNK_SIZE := -1;
     settings.YANDEX_ENDPOINT := "stt.api.cloud.yandex.net:443" |}.

Definition zero_chunk_cfg : settings.t :=
  {| settings.SAMPLE_RATE := 8000;
     settings.AUDIO_CHANNELS := 1;
     settings.CHUNK_SIZE := 0;
     settings.YANDEX_ENDPOINT := "stt.api.cloud.yandex.net:443" |}.

(** A chunk size that [f.read] refuses. *)
Definition low_chunk_cfg : settings.t :=
  {| settings.SAMPLE_RATE := 8000;
     settings.AUDIO_CHANNELS := 1;
     settings.CHUNK_SIZE := -2;
     settings.YANDEX_ENDPOINT := "stt.api.cloud.yandex.net:443" |}.

Definition fs_none : string -> option (list byte) := fun _ => None.

(** Two Final events in Russian, as the ru-RU recogniser sends them. *)
Definition privet_mir : list StreamingResponse :=
  [final_event (said "привет"); partial_event (said "ми");
   final_event (said "мир")].

Definition other_client : YandexSTTClient := {| api_key := "another" |}.

(** Transports that answer with a fixed iterator. *)
Definition answers (responses : list StreamingResponse) (end_ : option exn)
  : string -> (gen_state -> gen_out * gen_state) -> list (string * string)
    -> inbound :=
  fun _ _ _ => {| events := responses; closing := end_ |}.

End Sample.

(** ** Lemmas on the receive loop *)

Lemma loop_body_classify save_intermediate st response :
  loop_body save_intermediate st response
  = apply_event save_intermediate st (classify response).
Proof.
  unfold loop_body, classify, is_event, first.
  destruct response as [[alts] | [alts] | [[alts]] | field | ]; cbn.
  - destruct alts; reflexivity.
  - destruct alts; reflexivity.
  - destruct alts; reflexivity.
  - destruct (String.eqb field "partial"), (String.eqb field "final"),
      (String.eqb field "final_refinement"); reflexivity.
  - reflexivity.
Qed.

Lemma apply_event_segments save_intermediate st ev :
  segments (apply_event save_intermediate st ev)
  = segments st ++ match ev with Final text => [text] | _ => [] end.
Proof.
  destruct ev; cbn; try (destruct save_intermediate; cbn);
    now rewrite ?app_nil_r.
Qed.

Lemma run_loop_app save_intermediate st l1 l2 :
  run_loop save_intermediate st (l1 ++ l2)
  = run_loop save_intermediate (run_loop save_intermediate st l1) l2.
Proof. apply fold_left_app. Qed.

Lemma run_loop_segments save_intermediate responses :
  forall st,
    segments (run_loop save_intermediate st responses)
    = segments st ++ final_texts responses.
Proof.
  induction responses as [|r rs IH]; intros st; cbn.
  - now rewrite app_nil_r.
  - unfold run_loop in IH. rewrite IH, loop_body_classify, apply_event_segments.
    now rewrite <- app_assoc.
Qed.

Lemma final_texts_app l1 l2 :
  final_texts (l1 ++ l2) = final_texts l1 ++ final_texts l2.
Proof. unfold final_texts. apply flat_map_app. Qed.

Lemma consume_clean responses save_intermediate log0 :
  fst (consume {| events := responses; closing := None |} save_intermediate log0)
  = Return (String.concat " " (final_texts responses), final_texts responses).
Proof.
  unfold consume; cbn [closing events fst].
  now rewrite run_loop_segments.
Qed.

Lemma consume_raises responses e save_intermediate log0 :
  fst (consume {| events := responses; closing := Some e |} save_intermediate log0)
  = Raise e.
Proof. unfold consume; cbn. destruct e; reflexivity. Qed.

(** ** Lemmas on the request generator *)

Lemma ceil_div_zero c : 0 < c -> ceil_div 0 c = 0.
Proof. intros Hc. unfold ceil_div. apply Z.div_small. lia. Qed.

Lemma ceil_div_one n c : 0 < n <= c -> ceil_div n c = 1.
Proof.
  intros H. unfold ceil_div. symmetry.
  apply (Z.div_unique_pos _ _ 1 (n - 1)); lia.
Qed.

Lemma ceil_div_step n c : 0 < c -> ceil_div n c = 1 + ceil_div (n - c) c.
Proof.
  intros Hc. unfold ceil_div.
  replace (n + c - 1) with ((n - c + c - 1) + 1 * c) by lia.
  rewrite Z.div_add by lia. lia.
Qed.

Lemma ceil_div_bounds n c :
  0 < c -> (ceil_div n c - 1) * c < n <= ceil_div n c * c.
Proof.
  intros Hc. unfold ceil_div.
  pose proof (Z.div_mod (n + c - 1) c ltac:(lia)) as E.
  pose proof (Z.mod_pos_bound (n + c - 1) c Hc) as B.
  nia.
Qed.

Lemma skipn_length_firstn {A} n (l : list A) :
  skipn (List.length (firstn n l)) l = skipn n l.
Proof.
  rewrite length_firstn.
  destruct (Nat.le_gt_cases n (List.length l)) as [H|H].
  - now rewrite Nat.min_l.
  - rewrite Nat.min_r by lia. rewrite !skipn_all2; auto; lia.
Qed.

Section SplitChunks.

Variable size : nat.
Hypothesis size_pos : (0 < size)%nat.

Lemma split_chunks_concat fuel : forall bytes,
  (List.length bytes <= fuel)%nat ->
  List.concat (split_chunks fuel size bytes) = bytes.
Proof.
  induction fuel as [|fuel IH]; intros bytes Hlen.
  - destruct bytes; [reflexivity | cbn in Hlen; lia].
  - destruct bytes as [|b bs]; [reflexivity|].
    cbn [split_chunks List.concat]. rewrite IH.
    + apply firstn_skipn.
    + rewrite length_skipn. cbn [List.length] in *. lia.
Qed.

Lemma split_chunks_sizes fuel : forall bytes,
  Forall (fun d => d <> [] /\ (List.length d <= size)%nat)
         (split_chunks fuel size bytes).
Proof.
  induction fuel as [|fuel IH]; intros bytes; [constructor|].
  destruct bytes as [|b bs]; [constructor|].
  cbn [split_chunks]. constructor; [|apply IH]. split.
  - destruct size; [lia | discriminate].
  - rewrite length_firstn. lia.
Qed.

Lemma split_chunks_count fuel : forall bytes,
  (List.length bytes <= fuel)%nat ->
  Z.of_nat (List.length (split_chunks fuel size bytes))
  = ceil_div (Z.of_nat (List.length bytes)) (Z.of_nat size).
Proof.
  induction fuel as [|fuel IH]; intros bytes Hlen.
  - destruct bytes; [|cbn in Hlen; lia].
    cbn. rewrite ceil_div_zero; lia.
  - destruct bytes as [|b bs]; [cbn; rewrite ceil_div_zero; lia|].
    cbn [split_chunks].
    assert (0 < List.length (b :: bs))%nat by (cbn; lia).
    set (l := b :: bs) in *. set (n := List.length l) in *.
    cbn [List.length]. rewrite Nat2Z.inj_succ, IH.
    2:{ rewrite length_skipn. lia. }
    rewrite length_skipn. fold n.
    destruct (Nat.le_gt_cases n size) as [Hs|Hs].
    + replace (n - size)%nat with O by lia.
      rewrite ceil_div_zero, ceil_div_one; lia.
    + rewrite (ceil_div_step (Z.of_nat n)) by lia.
      rewrite Nat2Z.inj_sub by lia. lia.
Qed.

Lemma split_chunks_last fuel : forall bytes,
  (List.length bytes <= fuel)%nat ->
  bytes <> [] ->
  Z.of_nat (List.length (last (split_chunks fuel size bytes) []))
  = tail_length (Z.of_nat (List.length bytes)) (Z.of_nat size).
Proof.
  induction fuel as [|fuel IH]; intros bytes Hlen Hne.
  - destruct bytes; [congruence | cbn in Hlen; lia].
  - destruct bytes as [|b bs]; [congruence|].
    cbn [split_chunks].
    set (l := b :: bs) in *.
    assert (0 < List.length l)%nat by (subst l; cbn; lia).
    destruct (Nat.le_gt_cases (List.length l) size) as [Hs|Hs].
    + rewrite (skipn_all2 l) by lia.
      replace (split_chunks fuel size []) with (@nil (list byte))
        by (destruct fuel; reflexivity).
      cbn [last]. rewrite firstn_all2 by lia.
      unfold tail_length.
      destruct (Nat.eq_dec (List.length l) size) as [E|E].
      * rewrite E, Z.mod_same by lia. reflexivity.
      * rewrite Z.mod_small by lia.
        destruct (Z.eqb_spec (Z.of_nat (List.length l)) 0); lia.
    + assert (Hsk : skipn size l <> []).
      { intros E. apply (f_equal (@List.length _)) in E.
        rewrite length_skipn in E. cbn [List.length] in E. lia. }
      assert (Hrec : split_chunks fuel size (skipn size l) <> []).
      { destruct fuel as [|fuel'].
        - lia.
        - destruct (skipn size l); [congruence | discriminate]. }
      assert (Hlast : forall (x : list byte) xs, xs <> [] ->
                        last (x :: xs) [] = last xs []).
      { intros x [|y ys] Hx; [congruence | reflexivity]. }
      rewrite Hlast by exact Hrec.
      rewrite IH; [| rewrite length_skipn; lia | exact Hsk].
      rewrite length_skipn. unfold tail_length.
      rewrite Nat2Z.inj_sub by lia.
      assert (E : Z.of_nat (List.length l) mod Z.of_nat size
                  = (Z.of_nat (List.length l) - Z.of_nat size) mod Z.of_nat size).
      { rewrite <- (Z.mod_add (Z.of_nat (List.length l) - Z.of_nat size) 1)
          by lia.
        f_equal. lia. }
      rewrite E. reflexivity.
Qed.

End SplitChunks.

Section Generator.

Variable cfg : settings.t.
Variable fs : string -> option (list byte).
Variable self : YandexSTTClient.
Variable audio_file_path : string.

Let size := Z.to_nat (settings.CHUNK_SIZE cfg).
Let rest (f : file) := skipn (pos f) (content f).

Lemma read_turn_invalid f :
  settings.CHUNK_SIZE cfg < -1 -> read_turn cfg f = (Throw ValueError, GDone).
Proof.
  intros Hlow. unfold read_turn, read.
  destruct (Z.ltb_spec (settings.CHUNK_SIZE cfg) (-1)) as [_|?]; [reflexivity|lia].
Qed.

Lemma read_turn_empty f :
  -1 <= settings.CHUNK_SIZE cfg ->
  rest f = [] -> read_turn cfg f = (Stop, GDone).
Proof.
  unfold rest, read_turn, read. intros Hok ->.
  rewrite firstn_nil.
  destruct (Z.ltb_spec (settings.CHUNK_SIZE cfg) (-1)) as [?|_]; [lia|].
  now destruct (_ <? 0).
Qed.

Lemma read_turn_chunk f :
  0 < settings.CHUNK_SIZE cfg ->
  rest f <> [] ->
  exists f', read_turn cfg f = (Yield (chunk_of (firstn size (rest f))), GInLoop f')
             /\ rest f' = skipn size (rest f).
Proof.
  intros Hpos Hne. unfold read_turn, read. fold (rest f).
  destruct (Z.ltb_spec (settings.CHUNK_SIZE cfg) (-1)) as [?|_]; [lia|].
  destruct (Z.ltb_spec (settings.CHUNK_SIZE cfg) 0) as [?|_]; [lia|].
  fold size. assert (0 < size)%nat by (subst size; lia).
  destruct (firstn size (rest f)) as [|b got] eqn:E.
  - destruct (rest f); [congruence|]. destruct size; [lia | discriminate].
  - eexists; split; [reflexivity|].
    unfold rest at 1; cbn [pos content].
    rewrite Nat.add_comm, <- skipn_skipn. fold (rest f).
    rewrite <- E. apply skipn_length_firstn.
Qed.

Lemma drain_loop fuel : forall f,
  0 < settings.CHUNK_SIZE cfg ->
  (List.length (rest f) <= fuel)%nat ->
  drain cfg fs self audio_file_path (S fuel) (GInLoop f)
  = (map chunk_of (split_chunks fuel size (rest f)), Some Stop).
Proof.
  induction fuel as [|fuel IH]; intros f Hpos Hlen.
  - destruct (rest f) eqn:E; [|cbn in Hlen; lia].
    cbn [drain gen_next]. now rewrite read_turn_empty by (lia || exact E).
  - destruct (rest f) as [|b bs] eqn:E.
    + cbn [drain gen_next]. now rewrite read_turn_empty by (lia || exact E).
    + destruct (read_turn_chunk f Hpos) as (f' & Hturn & Hrest);
        [congruence|].
      change (drain cfg fs self audio_file_path (S (S fuel)) (GInLoop f))
        with (match read_turn cfg f with
              | (Yield m, st') =>
                  let '(ms, fin) :=
                    drain cfg fs self audio_file_path (S fuel) st' in
                  (m :: ms, fin)
              | (fin, _) => ([], Some fin)
              end).
      rewrite Hturn, IH; [| exact Hpos |].
      * rewrite Hrest, E. reflexivity.
      * rewrite Hrest, length_skipn, E.
        assert (0 < size)%nat by (subst size; lia).
        cbn [List.length] in *. lia.
Qed.

(** With a positive chunk size the generator ends by itself, having
    yielded the options and then the pieces of the file. *)
Lemma outbound_chunks bytes :
  fs audio_file_path = Some bytes ->
  0 < settings.CHUNK_SIZE cfg ->
  outbound cfg fs self audio_file_path
  = (session_options (_create_streaming_options cfg self)
       :: map chunk_of (chunks size bytes),
     Some Stop).
Proof.
  intros Hfs Hpos. unfold outbound. rewrite Hfs.
  pose proof (drain_loop (List.length bytes)
                {| content := bytes; pos := 0 |} Hpos) as H.
  unfold rest in H; cbn [pos content skipn] in H.
  specialize (H (Nat.le_refl _)).
  change (drain cfg fs self audio_file_path (S (S (List.length bytes))) GStart)
    with (let '(ms, fin) :=
            drain cfg fs self audio_file_path (S (List.length bytes))
                  GAfterOptions in
          (session_options (_create_streaming_options cfg self) :: ms, fin)).
  assert (E : drain cfg fs self audio_file_path (S (List.length bytes))
                    GAfterOptions
              = drain cfg fs self audio_file_path (S (List.length bytes))
                      (GInLoop {| content := bytes; pos := 0 |})).
  { cbn [drain gen_next]. now rewrite Hfs. }
  rewrite E, H. reflexivity.
Qed.

(** The fuel of [outbound] is enough for every chunk size and every file
    system: the generator always ends, by StopIteration or by raising. *)
Lemma outbound_terminates :
  exists fin, snd (outbound cfg fs self audio_file_path) = Some fin.
Proof.
  destruct (Z.ltb_spec 0 (settings.CHUNK_SIZE cfg)) as [Hpos|Hnp];
    destruct (fs audio_file_path) as [bytes|] eqn:Hfs.
  - rewrite (outbound_chunks bytes Hfs Hpos). eexists; reflexivity.
  - unfold outbound. rewrite Hfs. cbn [drain gen_next]. rewrite Hfs.
    eexists; reflexivity.
  - unfold outbound. rewrite Hfs. cbn [drain gen_next]. rewrite Hfs.
    destruct (Z.ltb_spec (settings.CHUNK_SIZE cfg) (-1)) as [Hlow|Hok].
    { rewrite read_turn_invalid by exact Hlow. eexists; reflexivity. }
    unfold read_turn at 1, read. cbn [pos content skipn].
    destruct (Z.ltb_spec (settings.CHUNK_SIZE cfg) (-1)) as [?|_]; [lia|].
    destruct (Z.ltb_spec (settings.CHUNK_SIZE cfg) 0) as [Hneg|Hzero].
    + destruct bytes as [|b bs]; [eexists; reflexivity|].
      cbn [List.length drain gen_next].
      rewrite read_turn_empty; [eexists; reflexivity | exact Hok |].
      unfold rest. cbn [pos content]. apply skipn_all2. cbn. lia.
    + replace (settings.CHUNK_SIZE cfg) with 0 by lia.
      cbn. eexists; reflexivity.
  - unfold outbound. rewrite Hfs. cbn [drain gen_next]. rewrite Hfs.
    eexists; reflexivity.
Qed.

(** Whatever the chunk size and the file system, the first [next] yields
    the options and every later message is a chunk. *)
Lemma drain_after_start fuel : forall st,
  st <> GStart ->
  forallb is_chunk (fst (drain cfg fs self audio_file_path fuel st)) = true.
Proof.
  induction fuel as [|fuel IH]; intros st Hst; [reflexivity|].
  cbn [drain].
  assert (Hturn : forall f,
             forallb is_chunk
               (fst (match read_turn cfg f with
                     | (Yield m, st') =>
                         let '(ms, fin) :=
                           drain cfg fs self audio_file_path fuel st' in
                         (m :: ms, fin)
                     | (fin, _) => ([], Some fin)
                     end)) = true).
  { intros f. unfold read_turn.
    destruct (read _ f) as [[got f']|e]; [|reflexivity].
    destruct got as [|b got]; [reflexivity|].
    specialize (IH (GInLoop f') ltac:(discriminate)).
    destruct (drain cfg fs self audio_file_path fuel (GInLoop f')).
    exact IH. }
  destruct st as [| |f|]; cbn [gen_next].
  - congruence.
  - destruct (fs audio_file_path); [apply Hturn | reflexivity].
  - apply Hturn.
  - reflexivity.
Qed.

End Generator.

(** ** Properties of [transcribe] *)

Lemma consume_outcome stream save_intermediate log0 :
  fst (consume stream save_intermediate log0)
  = match closing stream with
    | None => Return (String.concat " " (final_texts (events stream)),
                      final_texts (events stream))
    | Some e => Raise e
    end.
Proof.
  destruct stream as [responses [e|]]; cbn [closing events].
  - apply consume_raises.
  - apply consume_clean.
Qed.

Lemma final_texts_length responses :
  forallb (fun r => (0 <? List.length (alternatives (final r)))%nat)
          (final_discriminated responses) = true ->
  List.length (final_texts responses)
  = List.length (final_discriminated responses).
Proof.
  unfold final_texts, final_discriminated.
  induction responses as [|r rs IH]; [reflexivity|].
  cbn [flat_map filter].
  destruct r as [[alts] | [alts] | [[alts]] | field | ];
    cbn [WhichOneof is_event String.eqb Ascii.eqb Bool.eqb classify
         partial final final_refinement alternatives normalized_text];
    try exact IH.
  - destruct alts; exact IH.
  - cbn [forallb final alternatives]. destruct alts as [|a alts]; cbn.
    + discriminate.
    + intros H. now rewrite IH.
  - destruct alts; exact IH.
  - unfold classify. cbn [WhichOneof partial final final_refinement
                          alternatives normalized_text empty_update].
    destruct (String.eqb field "partial"); cbn.
    + destruct (String.eqb field "final"); cbn; [discriminate | exact IH].
    + destruct (String.eqb field "final"); cbn; [discriminate|].
      destruct (String.eqb field "final_refinement"); exact IH.
Qed.

(** C1: when the inbound stream ends cleanly, [transcribe] returns the texts
    of the Final events in the order received, repetitions kept, together
    with their join by single spaces; and the segments only grow at the
    end: what a longer run of the loop holds extends what a shorter run
    held by the Final texts of the extra responses. *)
Theorem transcribe_full_text_is_join
        cfg fs RecognizeStreaming self audio_file_path save_intermediate responses :
  open_stream cfg fs RecognizeStreaming self audio_file_path
  = {| events := responses; closing := None |} ->
  fst (transcribe cfg fs RecognizeStreaming self audio_file_path save_intermediate)
  = Return (String.concat " " (final_texts responses), final_texts responses)
  /\ (forall st earlier later,
        segments (run_loop save_intermediate st (earlier ++ later))
        = segments (run_loop save_intermediate st earlier) ++ final_texts later).
Proof.
  intros Hstream. split.
  - unfold transcribe. cbv zeta. rewrite Hstream. apply consume_clean.
  - intros st earlier later.
    now rewrite !run_loop_segments, final_texts_app, app_assoc.
Qed.

Lemma transcribe_full_text_is_join_witness :
  fst (transcribe Sample.cfg Sample.fs_ten
         (Sample.answers Sample.hello_world None) Sample.client "a.pcm" true)
  = Return ("hello world", ["hello"; "world"]).
Proof.
  exact (proj1 (transcribe_full_text_is_join
                  Sample.cfg Sample.fs_ten
                  (Sample.answers Sample.hello_world None)
                  Sample.client "a.pcm" true Sample.hello_world eq_refl)).
Defined.

(** C2: only Final events reach the segments.  One turn of the loop leaves
    the segments as they are unless the response is a Final event, whose
    text it appends; so when the stream ends cleanly and every response
    with discriminant [final] carries an alternative, the returned segments
    number as many as those responses, whatever else came between them. *)
Theorem only_final_events_add_segments
        cfg fs RecognizeStreaming self audio_file_path save_intermediate :
  let stream := open_stream cfg fs RecognizeStreaming self audio_file_path in
  closing stream = None ->
  forallb (fun r => (0 <? List.length (alternatives (final r)))%nat)
          (final_discriminated (events stream)) = true ->
  (exists full_text segs,
      fst (transcribe cfg fs RecognizeStreaming self audio_file_path
                      save_intermediate)
      = Return (full_text, segs)
      /\ List.length segs = List.length (final_discriminated (events stream)))
  /\ (forall st r,
        segments (loop_body save_intermediate st r)
        = if is_final r
          then segments st ++ [text (first (alternatives (final r)))]
          else segments st).
Proof.
  intros stream Hclose Hfinals. split.
  - exists (String.concat " " (final_texts (events stream))),
           (final_texts (events stream)).
    split.
    + unfold transcribe. cbv zeta. fold stream.
      now rewrite consume_outcome, Hclose.
    + now apply final_texts_length.
  - intros st r. rewrite loop_body_classify, apply_event_segments.
    unfold is_final.
    destruct (classify r) eqn:E; rewrite ?app_nil_r; try reflexivity.
    f_equal. f_equal. revert E. unfold classify, first.
    destruct r as [[alts] | [alts] | [[alts]] | field | ]; cbn;
      try (destruct alts; cbn; congruence).
    + destruct (String.eqb field "partial"), (String.eqb field "final"),
        (String.eqb field "final_refinement"); cbn; congruence.
    + congruence.
Qed.

Lemma only_final_events_add_segments_witness :
  exists full_text segs,
    fst (transcribe Sample.cfg Sample.fs_ten
           (Sample.answers Sample.interleaved None) Sample.client "a.pcm" false)
    = Return (full_text, segs)
    /\ List.length segs = 3%nat.
Proof.
  exact (proj1 (only_final_events_add_segments
                  Sample.cfg Sample.fs_ten
                  (Sample.answers Sample.interleaved None)
                  Sample.client "a.pcm" false eq_refl eq_refl)).
Defined.

(** C3: when the inbound iterator raises, after any number of responses,
    [transcribe] raises that same error and returns no
    (full_text, segments) pair; a gRPC error reaches the caller with its
    code and details, which are logged on the way. *)
Theorem transport_failure_is_reraised
        cfg fs RecognizeStreaming self audio_file_path save_intermediate err :
  closing (open_stream cfg fs RecognizeStreaming self audio_file_path)
  = Some err ->
  let result :=
    transcribe cfg fs RecognizeStreaming self audio_file_path save_intermediate in
  fst result = Raise err
  /\ (forall pair, fst result <> Return pair)
  /\ match err with
     | Rendezvous code details =>
         last (snd result) (INFO, MsgStart audio_file_path)
         = (ERROR, MsgGrpcError code details)
     | _ => True
     end.
Proof.
  intros Hclose result.
  assert (E : fst result = Raise err).
  { subst result. unfold transcribe. cbv zeta.
    now rewrite consume_outcome, Hclose. }
  repeat split.
  - exact E.
  - intros pair. rewrite E. discriminate.
  - destruct err as [code details | | |]; [|exact I..].
    subst result. unfold transcribe, consume. cbv zeta.
    rewrite Hclose. cbn [snd]. apply last_last.
Qed.

Lemma transport_failure_is_reraised_witness :
  fst (transcribe Sample.cfg Sample.fs_ten
         (Sample.answers [final_event (Sample.said "hello")]
                         (Some (Rendezvous "UNAVAILABLE" "connection reset")))
         Sample.client "a.pcm" false)
  = Raise (Rendezvous "UNAVAILABLE" "connection reset").
Proof.
  exact (proj1 (transport_failure_is_reraised
                  Sample.cfg Sample.fs_ten
                  (Sample.answers [final_event (Sample.said "hello")]
                     (Some (Rendezvous "UNAVAILABLE" "connection reset")))
                  Sample.client "a.pcm" false
                  (Rendezvous "UNAVAILABLE" "connection reset") eq_refl)).
Defined.

(** C9: what [transcribe] hands back, a returned pair or a raised error,
    is the same with [save_intermediate] set and unset; the flag shows only
    in the intermediate texts and the log, and neither is returned. *)
Theorem result_independent_of_save_intermediate
        cfg fs RecognizeStreaming self audio_file_path :
  fst (transcribe cfg fs RecognizeStreaming self audio_file_path true)
  = fst (transcribe cfg fs RecognizeStreaming self audio_file_path false)
  /\ (forall st responses,
        segments (run_loop true st responses)
        = segments (run_loop false st responses)).
Proof.
  split.
  - unfold transcribe. cbv zeta. now rewrite !consume_outcome.
  - intros st responses. now rewrite !run_loop_segments.
Qed.

(** ** Properties of the outbound side *)

(** C10: the options message is fixed but for two numbers.  Whatever the
    client's api key, the chunk size and the endpoint, it has LINEAR16_PCM
    encoding, the whitelist of exactly ru-RU, text normalization and the
    profanity filter on, literature text off and REAL_TIME processing; the
    sample rate and the channel count are those of the settings. *)
Theorem streaming_options_are_constant
        rate channels chunk_size chunk_size' endpoint endpoint' self self' :
  let cfg := {| settings.SAMPLE_RATE := rate;
                settings.AUDIO_CHANNELS := channels;
                settings.CHUNK_SIZE := chunk_size;
                settings.YANDEX_ENDPOINT := endpoint |} in
  let cfg' := {| settings.SAMPLE_RATE := rate;
                 settings.AUDIO_CHANNELS := channels;
                 settings.CHUNK_SIZE := chunk_size';
                 settings.YANDEX_ENDPOINT := endpoint' |} in
  let model := recognition_model (_create_streaming_options cfg self) in
  _create_streaming_options cfg self = _create_streaming_options cfg' self'
  /\ audio_encoding (raw_audio (audio_format model)) = LINEAR16_PCM
  /\ sample_rate_hertz (raw_audio (audio_format model)) = rate
  /\ audio_channel_count (raw_audio (audio_format model)) = channels
  /\ restriction_type (language_restriction model) = WHITELIST
  /\ language_code (language_restriction model) = ["ru-RU"]
  /\ text_normalization_mode (text_normalization model) = TEXT_NORMALIZATION_ENABLED
  /\ profanity_filter (text_normalization model) = true
  /\ literature_text (text_normalization model) = false
  /\ audio_processing_type model = REAL_TIME.
Proof. cbv zeta. repeat split. Qed.

(** C4, as the code has it: a sample rate or a channel count that is not
    positive is not refused.  When one of the two is zero or negative, and
    both are values the int64 fields of the message can hold, the first
    step of the request generator yields the options message, and the
    message carries the two numbers of the settings as they are. *)
Theorem options_are_built_without_validation cfg fs self audio_file_path :
  settings.SAMPLE_RATE cfg <= 0 \/ settings.AUDIO_CHANNELS cfg <= 0 ->
  fits_int64 (settings.SAMPLE_RATE cfg) ->
  fits_int64 (settings.AUDIO_CHANNELS cfg) ->
  let options := _create_streaming_options cfg self in
  gen_next cfg fs self audio_file_path GStart
  = (Yield (session_options options), GAfterOptions)
  /\ sample_rate_hertz (raw_audio (audio_format (recognition_model options)))
     = settings.SAMPLE_RATE cfg
  /\ audio_channel_count (raw_audio (audio_format (recognition_model options)))
     = settings.AUDIO_CHANNELS cfg.
Proof. intros _ _ _. cbv zeta. repeat split. Qed.

Lemma options_are_built_without_validation_witness :
  gen_next Sample.zero_cfg Sample.fs_ten Sample.client "a.pcm" GStart
  = (Yield (session_options
              (_create_streaming_options Sample.zero_cfg Sample.client)),
     GAfterOptions)
  /\ sample_rate_hertz
       (raw_audio (audio_format (recognition_model
          (_create_streaming_options Sample.zero_cfg Sample.client)))) = 0
  /\ audio_channel_count
       (raw_audio (audio_format (recognition_model
          (_create_streaming_options Sample.zero_cfg Sample.client)))) = 0.
Proof.
  apply (options_are_built_without_validation
           Sample.zero_cfg Sample.fs_ten Sample.client "a.pcm").
  - left. cbn. lia.
  - unfold fits_int64. cbn. lia.
  - unfold fits_int64. cbn. lia.
Defined.

(** C4 as stated fails: with a sample rate and a channel count of zero the
    options are built and sent like any other, and a session whose server
    answers nothing and ends returns normally. *)
Lemma zero_rate_is_not_rejected :
  ~ (forall cfg fs self audio_file_path,
        settings.SAMPLE_RATE cfg <= 0 \/ settings.AUDIO_CHANNELS cfg <= 0 ->
        exists e st,
          gen_next cfg fs self audio_file_path GStart = (Throw e, st))
  /\ fst (transcribe Sample.zero_cfg Sample.fs_ten (Sample.answers [] None)
                    Sample.client "a.pcm" false)
     = Return ("", []).
Proof.
  split; [|reflexivity].
  intros claim.
  destruct (claim Sample.zero_cfg Sample.fs_ten Sample.client "a.pcm")
    as (e & st & H).
  - left. cbn. lia.
  - discriminate H.
Qed.

(** C5: the first message the generator yields is the options message,
    whether the file is empty, not empty or missing; however many messages
    the transport takes, the options come first and all that follows are
    audio chunks. *)
Theorem options_message_comes_first cfg fs self audio_file_path fuel :
  let options := session_options (_create_streaming_options cfg self) in
  fst (gen_next cfg fs self audio_file_path GStart) = Yield options
  /\ (exists rest fin,
        drain cfg fs self audio_file_path (S fuel) GStart = (options :: rest, fin)
        /\ forallb is_chunk rest = true)
  /\ (exists rest fin,
        outbound cfg fs self audio_file_path = (options :: rest, fin)
        /\ forallb is_chunk rest = true).
Proof.
  cbv zeta.
  assert (H : forall n,
             exists rest fin,
               drain cfg fs self audio_file_path (S n) GStart
               = (session_options (_create_streaming_options cfg self) :: rest, fin)
               /\ forallb is_chunk rest = true).
  { intros n. cbn [drain gen_next].
    pose proof (drain_after_start cfg fs self audio_file_path n GAfterOptions
                  ltac:(discriminate)) as Hrest.
    destruct (drain cfg fs self audio_file_path n GAfterOptions) as [rest fin].
    exists rest, fin. split; [reflexivity | exact Hrest]. }
  split; [reflexivity|]. split; [apply H|].
  unfold outbound. apply H.
Qed.

(** C6: for a file of L bytes and a chunk size C > 0 the generator ends by
    itself after the options and ceil(L / C) chunk messages; the chunks put
    end to end are the file, none is empty, and the last one has L mod C
    bytes, or C when C divides L. *)
Theorem outbound_chunk_count cfg fs self audio_file_path bytes :
  fs audio_file_path = Some bytes ->
  0 < settings.CHUNK_SIZE cfg ->
  let L := Z.of_nat (List.length bytes) in
  let C := settings.CHUNK_SIZE cfg in
  exists pieces,
    outbound cfg fs self audio_file_path
    = (session_options (_create_streaming_options cfg self)
         :: map chunk_of pieces,
       Some Stop)
    /\ Z.of_nat (List.length pieces) = ceil_div L C
    /\ (ceil_div L C - 1) * C < L <= ceil_div L C * C
    /\ List.concat pieces = bytes
    /\ Forall (fun piece => piece <> []) pieces
    /\ match pieces with
       | [] => L = 0
       | _ :: _ => Z.of_nat (List.length (last pieces [])) = tail_length L C
       end.
Proof.
  intros Hfs Hpos L C.
  set (size := Z.to_nat (settings.CHUNK_SIZE cfg)).
  assert (Hsize : (0 < size)%nat) by (subst size; lia).
  assert (HC : Z.of_nat size = C) by (subst size C; lia).
  exists (chunks size bytes). unfold chunks.
  split; [now apply outbound_chunks|].
  split; [rewrite <- HC; now apply split_chunks_count|].
  split; [now apply ceil_div_bounds|].
  split; [now apply split_chunks_concat|].
  split.
  - eapply Forall_impl; [|apply (split_chunks_sizes size Hsize)].
    cbn. tauto.
  - subst L.
    destruct (split_chunks (List.length bytes) size bytes) eqn:Es.
    + destruct bytes; [reflexivity | discriminate Es].
    + rewrite <- Es, <- HC.
      apply split_chunks_last; [assumption | lia | intros ->; discriminate Es].
Qed.

Lemma outbound_chunk_count_witness :
  exists pieces,
    outbound Sample.cfg Sample.fs_ten Sample.client "a.pcm"
    = (session_options (_create_streaming_options Sample.cfg Sample.client)
         :: map chunk_of pieces,
       Some Stop)
    /\ Z.of_nat (List.length pieces) = ceil_div 10 4
    /\ (ceil_div 10 4 - 1) * 4 < 10 <= ceil_div 10 4 * 4
    /\ List.concat pieces = Sample.ten_bytes
    /\ Forall (fun piece => piece <> []) pieces
    /\ match pieces with
       | [] => 10 = 0
       | _ :: _ => Z.of_nat (List.length (last pieces [])) = tail_length 10 4
       end.
Proof.
  exact (outbound_chunk_count Sample.cfg Sample.fs_ten Sample.client "a.pcm"
           Sample.ten_bytes eq_refl eq_refl).
Defined.

(** ** Sparse and unread events *)

(** C7: a response with discriminant [partial] or [final] and no
    alternative, and a response with any other discriminant (one that is
    none of [partial], [final] and [final_refinement], or none at all),
    does not stop the loop: it is Unknown, and the turn leaves the
    segments, the intermediate texts and the log as they were.  The same
    holds for a [final_refinement] without a normalized alternative. *)
Theorem sparse_events_are_unknown save_intermediate st response :
  sparse_or_unread response = true ->
  classify response = Unknown response
  /\ loop_body save_intermediate st response = st.
Proof.
  intros Hscope. rewrite loop_body_classify.
  assert (E : classify response = Unknown response).
  { revert Hscope. unfold sparse_or_unread, classify.
    destruct response as [[alts] | [alts] | [[alts]] | field | ]; cbn;
      try (destruct alts; cbn; [reflexivity | discriminate]).
    - destruct (String.eqb field "partial"), (String.eqb field "final"),
        (String.eqb field "final_refinement"); reflexivity.
    - reflexivity. }
  rewrite E. split; reflexivity.
Qed.

Lemma sparse_events_are_unknown_witness :
  classify (final_event empty_update) = Unknown (final_event empty_update)
  /\ loop_body true Sample.idle (final_event empty_update) = Sample.idle.
Proof.
  exact (sparse_events_are_unknown true Sample.idle
           (final_event empty_update) eq_refl).
Defined.

(** ** The empty file *)

(** C8: for a file of no bytes the options message is the only message
    of the outbound stream: the first read returns nothing and the
    generator stops (a chunk size below -1 makes that read raise
    instead); and when the server then ends the stream cleanly without a
    Final event, [transcribe] returns the empty text and no segments. *)
Theorem empty_audio_source
        cfg fs RecognizeStreaming self audio_file_path save_intermediate :
  fs audio_file_path = Some [] ->
  let stream := open_stream cfg fs RecognizeStreaming self audio_file_path in
  closing stream = None ->
  existsb is_final (events stream) = false ->
  fst (outbound cfg fs self audio_file_path)
  = [session_options (_create_streaming_options cfg self)]
  /\ snd (outbound cfg fs self audio_file_path)
     = Some (if settings.CHUNK_SIZE cfg <? -1 then Throw ValueError else Stop)
  /\ fst (transcribe cfg fs RecognizeStreaming self audio_file_path
                    save_intermediate)
     = Return ("", []).
Proof.
  intros Hfs stream Hclose Hnone.
  assert (Hout : outbound cfg fs self audio_file_path
                 = ([session_options (_create_streaming_options cfg self)],
                    Some (if settings.CHUNK_SIZE cfg <? -1
                          then Throw ValueError else Stop))).
  { unfold outbound. rewrite Hfs. cbn [List.length drain gen_next].
    rewrite Hfs.
    destruct (Z.ltb_spec (settings.CHUNK_SIZE cfg) (-1)) as [Hlow|Hok].
    - now rewrite read_turn_invalid.
    - now rewrite read_turn_empty. }
  rewrite Hout. split; [reflexivity|]. split; [reflexivity|].
  unfold transcribe. cbv zeta. fold stream.
  rewrite consume_outcome, Hclose.
  assert (E : final_texts (events stream) = []).
  { revert Hnone. generalize (events stream). intros responses.
    unfold final_texts, is_final.
    induction responses as [|r rs IH]; [reflexivity|].
    cbn [existsb flat_map].
    destruct (classify r); cbn; auto; discriminate. }
  now rewrite E.
Qed.

Lemma empty_audio_source_witness :
  fst (outbound Sample.cfg Sample.fs_empty Sample.client "silence.pcm")
  = [session_options (_create_streaming_options Sample.cfg Sample.client)]
  /\ snd (outbound Sample.cfg Sample.fs_empty Sample.client "silence.pcm")
     = Some Stop
  /\ fst (transcribe Sample.cfg Sample.fs_empty
           (Sample.answers Sample.quiet None) Sample.client "silence.pcm" true)
     = Return ("", []).
Proof.
  exact (empty_audio_source Sample.cfg Sample.fs_empty
           (Sample.answers Sample.quiet None) Sample.client "silence.pcm" true
           eq_refl eq_refl eq_refl).
Defined.

(** ** The scenarios of the specification, run *)

Example two_and_a_half_chunks :
  fst (outbound Sample.cfg Sample.fs_ten Sample.client "a.pcm")
  = [session_options (_create_streaming_options Sample.cfg Sample.client);
     chunk_of [x00; x01; x02; x03];
     chunk_of [x04; x05; x06; x07];
     chunk_of [x08; x09]].
Proof. reflexivity. Qed.

Example hello_world_log :
  transcribe Sample.cfg Sample.fs_ten (Sample.answers Sample.hello_world None)
             Sample.client "a.pcm" false
  = (Return ("hello world", ["hello"; "world"]),
     [(INFO, MsgStart "a.pcm");
      (INFO, MsgFinalSegment 1 "hello");
      (INFO, MsgFinalSegment 2 "world");
      (INFO, MsgDone 2 11)]).
Proof. reflexivity. Qed.

Example missing_file_still_sends_options :
  outbound Sample.cfg (fun _ => None) Sample.client "nowhere.pcm"
  = ([session_options (_create_streaming_options Sample.cfg Sample.client)],
     Some (Throw (OSError "nowhere.pcm"))).
Proof. reflexivity. Qed.

(** ** More on the request generator *)

Lemma split_chunks_nth size fuel : forall i bytes,
  (0 < size)%nat ->
  (List.length bytes <= fuel)%nat ->
  (i * size < List.length bytes)%nat ->
  nth_error (split_chunks fuel size bytes) i
  = Some (firstn size (skipn (i * size) bytes)).
Proof.
  induction fuel as [|fuel IH]; intros i bytes Hsize Hlen Hi; [lia|].
  destruct bytes as [|b bs]; [cbn in Hi; lia|].
  cbn [split_chunks]. destruct i as [|i]; [reflexivity|].
  cbn [nth_error]. rewrite IH; [| exact Hsize | |].
  - rewrite skipn_skipn.
    now replace (S i * size)%nat with (i * size + size)%nat by lia.
  - rewrite length_skipn. cbn [List.length] in *. lia.
  - rewrite length_skipn. lia.
Qed.

Lemma split_chunks_full size fuel : forall bytes,
  Forall (fun piece => List.length piece = size)
         (removelast (split_chunks fuel size bytes)).
Proof.
  induction fuel as [|fuel IH]; intros bytes; [constructor|].
  destruct bytes as [|b bs]; [constructor|].
  cbn [split_chunks]. set (l := b :: bs).
  destruct (split_chunks fuel size (skipn size l)) as [|p ps] eqn:E.
  - constructor.
  - change (removelast (firstn size l :: p :: ps))
      with (firstn size l :: removelast (p :: ps)).
    constructor; [| rewrite <- E; apply IH].
    rewrite length_firstn. apply Nat.min_l.
    destruct (Nat.le_gt_cases size (List.length l)) as [H|H]; [exact H|].
    rewrite skipn_all2 in E by lia. destruct fuel; discriminate E.
Qed.

Lemma drain_more cfg fs self audio_file_path fuel : forall st ms fin extra,
  drain cfg fs self audio_file_path fuel st = (ms, Some fin) ->
  drain cfg fs self audio_file_path (fuel + extra) st = (ms, Some fin).
Proof.
  induction fuel as [|fuel IH]; intros st ms fin extra H; [discriminate H|].
  cbn [drain Nat.add] in *.
  destruct (gen_next cfg fs self audio_file_path st) as [[m| |e] st'];
    try exact H.
  destruct (drain cfg fs self audio_file_path fuel st') as [ms' fin'] eqn:E.
  destruct fin' as [fin'|]; [|discriminate H].
  rewrite (IH _ _ _ extra E). exact H.
Qed.

(** X1: when the file cannot be opened the options message has already
    gone out: the stream is that one message, and then the generator
    raises the error of [open]. *)
Theorem missing_file_raises_after_options cfg fs self audio_file_path :
  fs audio_file_path = None ->
  outbound cfg fs self audio_file_path
  = ([session_options (_create_streaming_options cfg self)],
     Some (Throw (OSError audio_file_path))).
Proof.
  intros Hfs. unfold outbound. rewrite Hfs.
  cbn [drain gen_next]. now rewrite Hfs.
Qed.

Lemma missing_file_raises_after_options_witness :
  outbound Sample.cfg Sample.fs_none Sample.client "nowhere.pcm"
  = ([session_options (_create_streaming_options Sample.cfg Sample.client)],
     Some (Throw (OSError "nowhere.pcm"))).
Proof.
  exact (missing_file_raises_after_options
           Sample.cfg Sample.fs_none Sample.client "nowhere.pcm" eq_refl).
Defined.

(** X2: with a chunk size of zero no audio is ever sent: the first read
    returns no bytes, which ends the loop, however long the file is. *)
Theorem zero_chunk_size_sends_no_audio cfg fs self audio_file_path bytes :
  settings.CHUNK_SIZE cfg = 0 ->
  fs audio_file_path = Some bytes ->
  outbound cfg fs self audio_file_path
  = ([session_options (_create_streaming_options cfg self)], Some Stop).
Proof.
  intros Hzero Hfs. unfold outbound. rewrite Hfs.
  cbn [drain gen_next]. rewrite Hfs.
  unfold read_turn, read. rewrite Hzero. reflexivity.
Qed.

Lemma zero_chunk_size_sends_no_audio_witness :
  outbound Sample.zero_chunk_cfg Sample.fs_ten Sample.client "a.pcm"
  = ([session_options
        (_create_streaming_options Sample.zero_chunk_cfg Sample.client)],
     Some Stop).
Proof.
  exact (zero_chunk_size_sends_no_audio
           Sample.zero_chunk_cfg Sample.fs_ten Sample.client "a.pcm"
           Sample.ten_bytes eq_refl eq_refl).
Defined.

(** X3: a negative chunk size.  With -1 the first read takes the whole
    file, so a file that is not empty goes out as one chunk and the
    generator stops at the next read; with anything below -1 the first
    read raises ValueError, so the options are all that goes out. *)
Theorem negative_chunk_size_reads_all_or_raises
        cfg fs self audio_file_path bytes :
  settings.CHUNK_SIZE cfg < 0 ->
  fs audio_file_path = Some bytes ->
  bytes <> [] ->
  outbound cfg fs self audio_file_path
  = if settings.CHUNK_SIZE cfg =? -1
    then ([session_options (_create_streaming_options cfg self);
           chunk_of bytes],
          Some Stop)
    else ([session_options (_create_streaming_options cfg self)],
          Some (Throw ValueError)).
Proof.
  intros Hneg Hfs Hne. unfold outbound. rewrite Hfs.
  cbn [drain gen_next]. rewrite Hfs.
  destruct (Z.eqb_spec (settings.CHUNK_SIZE cfg) (-1)) as [Hall|Hlow].
  - unfold read_turn at 1, read. cbn [pos content skipn]. rewrite Hall.
    change (-1 <? -1) with false. change (-1 <? 0) with true. cbv iota.
    destruct bytes as [|b bs]; [congruence|].
    cbn [List.length drain gen_next].
    rewrite read_turn_empty; [reflexivity | lia |].
    cbn [pos content]. apply skipn_all2. cbn. lia.
  - rewrite read_turn_invalid by lia. reflexivity.
Qed.

Lemma negative_chunk_size_reads_all_or_raises_witness :
  outbound Sample.negative_chunk_cfg Sample.fs_ten Sample.client "a.pcm"
  = ([session_options
        (_create_streaming_options Sample.negative_chunk_cfg Sample.client);
      chunk_of Sample.ten_bytes],
     Some Stop).
Proof.
  exact (negative_chunk_size_reads_all_or_raises
           Sample.negative_chunk_cfg Sample.fs_ten Sample.client "a.pcm"
           Sample.ten_bytes eq_refl eq_refl ltac:(discriminate)).
Defined.

(** X4: with a chunk size C > 0, the chunk message number i (counting from
    0, after the options) carries the bytes of the file from offset i * C,
    C of them or as many as are left. *)
Theorem chunk_is_slice_of_file cfg fs self audio_file_path bytes i :
  fs audio_file_path = Some bytes ->
  0 < settings.CHUNK_SIZE cfg ->
  let size := Z.to_nat (settings.CHUNK_SIZE cfg) in
  (i * size < List.length bytes)%nat ->
  nth_error (fst (outbound cfg fs self audio_file_path)) (S i)
  = Some (chunk_of (firstn size (skipn (i * size) bytes))).
Proof.
  intros Hfs Hpos size Hi.
  rewrite (outbound_chunks cfg fs self audio_file_path bytes Hfs Hpos).
  cbn [fst nth_error]. rewrite nth_error_map. unfold chunks. fold size.
  rewrite split_chunks_nth; [reflexivity | subst size; lia | lia | exact Hi].
Qed.

Lemma chunk_is_slice_of_file_witness :
  nth_error (fst (outbound Sample.cfg Sample.fs_ten Sample.client "a.pcm")) 3
  = Some (chunk_of [x08; x09]).
Proof.
  exact (chunk_is_slice_of_file Sample.cfg Sample.fs_ten Sample.client "a.pcm"
           Sample.ten_bytes 2 eq_refl eq_refl ltac:(cbn; lia)).
Defined.

(** X5: with a chunk size C > 0 no chunk message holds more than C bytes,
    and every chunk but the last holds exactly C. *)
Theorem chunks_are_full_but_the_last cfg fs self audio_file_path bytes :
  fs audio_file_path = Some bytes ->
  0 < settings.CHUNK_SIZE cfg ->
  exists pieces,
    fst (outbound cfg fs self audio_file_path)
    = session_options (_create_streaming_options cfg self)
        :: map chunk_of pieces
    /\ Forall (fun piece =>
                 Z.of_nat (List.length piece) <= settings.CHUNK_SIZE cfg)
              pieces
    /\ Forall (fun piece =>
                 Z.of_nat (List.length piece) = settings.CHUNK_SIZE cfg)
              (removelast pieces).
Proof.
  intros Hfs Hpos.
  set (size := Z.to_nat (settings.CHUNK_SIZE cfg)).
  assert (Hsize : (0 < size)%nat) by (subst size; lia).
  exists (chunks size bytes). unfold chunks.
  split; [now rewrite (outbound_chunks cfg fs self audio_file_path bytes)|].
  split.
  - eapply Forall_impl; [|apply (split_chunks_sizes size Hsize)].
    cbn. intros piece [_ H]. subst size. lia.
  - eapply Forall_impl; [|apply split_chunks_full].
    cbn. intros piece H. subst size. lia.
Qed.

Lemma chunks_are_full_but_the_last_witness :
  exists pieces,
    fst (outbound Sample.cfg Sample.fs_ten Sample.client "a.pcm")
    = session_options (_create_streaming_options Sample.cfg Sample.client)
        :: map chunk_of pieces
    /\ Forall (fun piece => Z.of_nat (List.length piece) <= 4) pieces
    /\ Forall (fun piece => Z.of_nat (List.length piece) = 4)
              (removelast pieces).
Proof.
  exact (chunks_are_full_but_the_last
           Sample.cfg Sample.fs_ten Sample.client "a.pcm" Sample.ten_bytes
           eq_refl eq_refl).
Defined.

(** X6: once the generator has ended, asking it again brings nothing: a
    consumer that calls [next] more often than the file size plus two sees
    the same messages and the same end, for every chunk size and whether
    or not the file exists. *)
Theorem exhausted_generator_stays_exhausted
        cfg fs self audio_file_path extra :
  drain cfg fs self audio_file_path
        (S (S (file_size fs audio_file_path)) + extra) GStart
  = outbound cfg fs self audio_file_path
  /\ exists fin, snd (outbound cfg fs self audio_file_path) = Some fin.
Proof.
  destruct (outbound_terminates cfg fs self audio_file_path) as [fin Hfin].
  split; [|now exists fin].
  destruct (outbound cfg fs self audio_file_path) as [ms o] eqn:E.
  cbn [snd] in Hfin. subst o.
  apply drain_more. exact E.
Qed.

Lemma read_turn_inside cfg g f :
  snd (read_turn cfg g) = GInLoop f ->
  (pos g <= List.length (content g))%nat ->
  content f = content g
  /\ (pos g < pos f <= List.length (content f))%nat.
Proof.
  unfold read_turn, read. intros H Hg.
  destruct (settings.CHUNK_SIZE cfg <? -1); [discriminate H|].
  set (rest := skipn (pos g) (content g)) in *.
  set (got := if settings.CHUNK_SIZE cfg <? 0
              then rest
              else firstn (Z.to_nat (settings.CHUNK_SIZE cfg)) rest) in *.
  assert (Hgot : (List.length got <= List.length rest)%nat).
  { subst got. destruct (_ <? 0); [lia | rewrite length_firstn; lia]. }
  assert (Hrest : List.length rest = (List.length (content g) - pos g)%nat)
    by (subst rest; apply length_skipn).
  destruct got as [|b got']; [discriminate H|].
  cbn [snd] in H. injection H as <-. cbn [content pos List.length] in *.
  split; [reflexivity | lia].
Qed.

(** X7: while the generator is in its read loop, the file object it holds
    is the file that [open] found, its position is past the start and not
    past the end, and the next read moves it forward. *)
Theorem generator_stays_inside_the_file cfg fs self audio_file_path n f :
  state_after cfg fs self audio_file_path n = GInLoop f ->
  fs audio_file_path = Some (content f)
  /\ (0 < pos f <= List.length (content f))%nat
  /\ match state_after cfg fs self audio_file_path (S n) with
     | GInLoop f' => content f' = content f /\ (pos f < pos f')%nat
     | _ => True
     end.
Proof.
  intros Hn.
  assert (Hinv : fs audio_file_path = Some (content f)
                 /\ (0 < pos f <= List.length (content f))%nat).
  { revert f Hn. induction n as [|n IH]; intros f Hn; [discriminate Hn|].
    cbn [state_after] in Hn.
    destruct (state_after cfg fs self audio_file_path n) as [| |g|] eqn:E;
      cbn [gen_next] in Hn; try discriminate Hn.
    - destruct (fs audio_file_path) as [bytes|] eqn:Hfs; [|discriminate Hn].
      apply read_turn_inside in Hn; [|cbn; lia].
      cbn [content pos] in Hn. destruct Hn as [-> Hpos].
      split; [reflexivity | lia].
    - destruct (IH g eq_refl) as [Hfs Hg].
      apply read_turn_inside in Hn; [|lia].
      destruct Hn as [Hc Hpos]. rewrite Hc in *. split; [exact Hfs | lia]. }
  destruct Hinv as [Hfs Hpos]. repeat split; try lia; try exact Hfs.
  cbn [state_after]. rewrite Hn. cbn [gen_next].
  destruct (snd (read_turn cfg f)) as [| |f'|] eqn:E; try exact I.
  apply read_turn_inside in E; [|lia]. destruct E as [Hc Hlt].
  split; [exact Hc | lia].
Qed.

Lemma generator_stays_inside_the_file_witness :
  state_after Sample.cfg Sample.fs_ten Sample.client "a.pcm" 3
  = GInLoop {| content := Sample.ten_bytes; pos := 8 |}
  /\ Sample.fs_ten "a.pcm" = Some Sample.ten_bytes
  /\ (0 < 8 <= 10)%nat.
Proof.
  split; [reflexivity|].
  destruct (generator_stays_inside_the_file
              Sample.cfg Sample.fs_ten Sample.client "a.pcm" 3
              {| content := Sample.ten_bytes; pos := 8 |} eq_refl)
    as (Hfs & Hpos & _).
  exact (conj Hfs Hpos).
Defined.

(** ** More on the receive loop *)

Lemma apply_event_intermediate save_intermediate st ev :
  intermediate_texts (apply_event save_intermediate st ev)
  = intermediate_texts st
      ++ (if save_intermediate
          then match ev with Partial text => [text] | _ => [] end
          else []).
Proof.
  destruct ev, save_intermediate; cbn; now rewrite ?app_nil_r.
Qed.

(** X8: the intermediate texts are the first-alternative texts of the
    Partial events, in the order received, when [save_intermediate] is
    set; when it is not set the list stays as it was. *)
Theorem intermediate_texts_are_partial_texts save_intermediate st responses :
  intermediate_texts (run_loop save_intermediate st responses)
  = intermediate_texts st
      ++ (if save_intermediate then partial_texts responses else []).
Proof.
  revert st. induction responses as [|r rs IH]; intros st.
  - cbn. destruct save_intermediate; now rewrite app_nil_r.
  - cbn [run_loop fold_left]. unfold run_loop in IH.
    rewrite IH, loop_body_classify, apply_event_intermediate.
    destruct save_intermediate; rewrite <- app_assoc; [|reflexivity].
    reflexivity.
Qed.

Lemma apply_event_log save_intermediate st ev :
  exists added,
    logged (apply_event save_intermediate st ev) = logged st ++ added
    /\ errors_logged added = []
    /\ without_intermediate added
       = match ev with
         | Final text =>
             [(INFO, MsgFinalSegment (S (List.length (segments st))) text)]
         | FinalRefinementEvent refined => [(DEBUG, MsgRefined refined)]
         | _ => []
         end
    /\ (save_intermediate = false -> without_intermediate added = added).
Proof.
  destruct ev as [t|t|t|raw]; cbn [apply_event].
  - destruct save_intermediate.
    + exists [(DEBUG, MsgIntermediate t)]. repeat split. discriminate.
    + exists []. rewrite app_nil_r. repeat split.
  - eexists. split; [reflexivity|].
    rewrite length_app, Nat.add_comm. repeat split.
  - eexists. split; [reflexivity|]. repeat split.
  - exists []. rewrite app_nil_r. repeat split.
Qed.

Lemma without_intermediate_app l1 l2 :
  without_intermediate (l1 ++ l2)
  = without_intermediate l1 ++ without_intermediate l2.
Proof. apply filter_app. Qed.

Lemma errors_logged_app l1 l2 :
  errors_logged (l1 ++ l2) = errors_logged l1 ++ errors_logged l2.
Proof. apply filter_app. Qed.

Lemma final_segment_entries_app l1 l2 :
  final_segment_entries (l1 ++ l2)
  = final_segment_entries l1 ++ final_segment_entries l2.
Proof. apply flat_map_app. Qed.

Lemma run_loop_log_flag responses : forall st_on st_off,
  segments st_on = segments st_off ->
  without_intermediate (logged st_on) = logged st_off ->
  without_intermediate (logged (run_loop true st_on responses))
  = logged (run_loop false st_off responses).
Proof.
  induction responses as [|r rs IH]; intros st_on st_off Hseg Hlog;
    [exact Hlog|].
  cbn [run_loop fold_left]. apply IH.
  - rewrite !loop_body_classify, !apply_event_segments. now rewrite Hseg.
  - rewrite !loop_body_classify.
    destruct (apply_event_log true st_on (classify r))
      as (on & -> & _ & Hon & _).
    destruct (apply_event_log false st_off (classify r))
      as (off & -> & _ & Hoff & Hsame).
    rewrite without_intermediate_app, Hlog, Hon, Hseg, <- Hoff.
    now rewrite Hsame.
Qed.

Lemma run_loop_errors save_intermediate responses : forall st,
  errors_logged (logged (run_loop save_intermediate st responses))
  = errors_logged (logged st).
Proof.
  induction responses as [|r rs IH]; intros st; [reflexivity|].
  cbn [run_loop fold_left]. unfold run_loop in IH. rewrite IH.
  rewrite loop_body_classify.
  destruct (apply_event_log save_intermediate st (classify r))
    as (added & -> & Herr & _).
  now rewrite errors_logged_app, Herr, app_nil_r.
Qed.

Lemma run_loop_log_extends save_intermediate responses : forall st,
  exists added,
    logged (run_loop save_intermediate st responses) = logged st ++ added.
Proof.
  induction responses as [|r rs IH]; intros st.
  - exists []. cbn. now rewrite app_nil_r.
  - cbn [run_loop fold_left].
    destruct (IH (loop_body save_intermediate st r)) as [more Hmore].
    unfold run_loop in Hmore. rewrite Hmore, loop_body_classify.
    destruct (apply_event_log save_intermediate st (classify r))
      as (added & -> & _).
    exists (added ++ more). now rewrite app_assoc.
Qed.

Lemma final_segment_entries_without_intermediate log :
  final_segment_entries (without_intermediate log) = final_segment_entries log.
Proof.
  unfold without_intermediate, final_segment_entries.
  induction log as [|[lvl msg] log IH]; [reflexivity|].
  destruct msg; cbn; rewrite IH; reflexivity.
Qed.

Lemma run_loop_final_entries save_intermediate responses : forall st,
  final_segment_entries (logged (run_loop save_intermediate st responses))
  = final_segment_entries (logged st)
      ++ combine (seq (S (List.length (segments st)))
                      (List.length (final_texts responses)))
                 (final_texts responses).
Proof.
  induction responses as [|r rs IH]; intros st.
  - cbn. now rewrite app_nil_r.
  - cbn [run_loop fold_left]. unfold run_loop in IH. rewrite IH.
    rewrite loop_body_classify, apply_event_segments.
    destruct (apply_event_log save_intermediate st (classify r))
      as (added & -> & _ & Hadded & _).
    rewrite final_segment_entries_app, <- app_assoc. f_equal.
    rewrite <- (final_segment_entries_without_intermediate added), Hadded.
    unfold final_texts at 3 4. cbn [flat_map]. fold (final_texts rs).
    destruct (classify r); cbn [List.app List.length];
      rewrite ?app_nil_r; try reflexivity.
    rewrite length_app, Nat.add_comm. reflexivity.
Qed.

(** ** The log of [transcribe] *)

(** X9: setting [save_intermediate] adds the debug lines of the partial
    results to the log and changes nothing else in it: with those lines
    taken out, the log of a run with the flag set is the log of the run
    without it. *)
Theorem save_intermediate_only_adds_debug_lines
        cfg fs RecognizeStreaming self audio_file_path :
  without_intermediate
    (snd (transcribe cfg fs RecognizeStreaming self audio_file_path true))
  = snd (transcribe cfg fs RecognizeStreaming self audio_file_path false).
Proof.
  unfold transcribe, consume. cbv zeta.
  set (stream := open_stream cfg fs RecognizeStreaming self audio_file_path).
  set (init := {| segments := []; intermediate_texts := [];
                  logged := [(INFO, MsgStart audio_file_path)] |}).
  assert (Hlog : without_intermediate (logged (run_loop true init (events stream)))
                 = logged (run_loop false init (events stream)))
    by (apply run_loop_log_flag; reflexivity).
  assert (Hseg : segments (run_loop true init (events stream))
                 = segments (run_loop false init (events stream)))
    by now rewrite !run_loop_segments.
  destruct (closing stream) as [[code details| | |]|]; cbn [snd];
    rewrite ?without_intermediate_app, Hlog, ?Hseg; reflexivity.
Qed.

(** X10: the "final segment added" log lines number the segments 1, 2, 3
    and so on without a gap, each with the text of its Final event, whether
    the stream then ends or raises. *)
Theorem final_segments_are_numbered_from_one
        cfg fs RecognizeStreaming self audio_file_path save_intermediate :
  let texts :=
    final_texts
      (events (open_stream cfg fs RecognizeStreaming self audio_file_path)) in
  final_segment_entries
    (snd (transcribe cfg fs RecognizeStreaming self audio_file_path
                     save_intermediate))
  = combine (seq 1 (List.length texts)) texts.
Proof.
  cbv zeta. unfold transcribe, consume. cbv zeta.
  set (stream := open_stream cfg fs RecognizeStreaming self audio_file_path).
  destruct (closing stream) as [[code details| | |]|]; cbn [snd];
    rewrite ?final_segment_entries_app, run_loop_final_entries;
    cbn; now rewrite ?app_nil_r.
Qed.

(** X11: an error line is logged exactly when the inbound iterator raises
    a gRPC error, once, with its code and details; any other exception goes
    to the caller with nothing logged for it, and a clean run logs no
    error. *)
Theorem only_grpc_errors_are_logged
        cfg fs RecognizeStreaming self audio_file_path save_intermediate :
  errors_logged
    (snd (transcribe cfg fs RecognizeStreaming self audio_file_path
                     save_intermediate))
  = match closing (open_stream cfg fs RecognizeStreaming self audio_file_path)
    with
    | Some (Rendezvous code details) => [(ERROR, MsgGrpcError code details)]
    | _ => []
    end.
Proof.
  unfold transcribe, consume. cbv zeta.
  set (stream := open_stream cfg fs RecognizeStreaming self audio_file_path).
  destruct (closing stream) as [[code details| | |]|]; cbn [snd];
    rewrite ?errors_logged_app, run_loop_errors; reflexivity.
Qed.

(** X12: a run that ends cleanly logs the start with the path first and
    the summary last, and the summary counts what is returned: the number
    of segments and the length of the full text. *)
Theorem clean_run_logs_start_and_summary
        cfg fs RecognizeStreaming self audio_file_path save_intermediate :
  closing (open_stream cfg fs RecognizeStreaming self audio_file_path) = None ->
  exists full_text segs body,
    transcribe cfg fs RecognizeStreaming self audio_file_path save_intermediate
    = (Return (full_text, segs),
       (INFO, MsgStart audio_file_path)
         :: body ++ [(INFO, MsgDone (List.length segs)
                                    (len full_text))]).
Proof.
  intros Hclose. unfold transcribe, consume. cbv zeta. rewrite Hclose.
  set (stream := open_stream cfg fs RecognizeStreaming self audio_file_path).
  set (init := {| segments := []; intermediate_texts := [];
                  logged := [(INFO, MsgStart audio_file_path)] |}).
  destruct (run_loop_log_extends save_intermediate (events stream) init)
    as [body Hbody].
  rewrite Hbody. cbn [logged init].
  now exists (String.concat " " (segments (run_loop save_intermediate init
                                                    (events stream)))),
             (segments (run_loop save_intermediate init (events stream))),
             body.
Qed.

Lemma clean_run_logs_start_and_summary_witness :
  exists full_text segs body,
    transcribe Sample.cfg Sample.fs_ten
               (Sample.answers Sample.privet_mir None)
               Sample.client "a.pcm" true
    = (Return (full_text, segs),
       (INFO, MsgStart "a.pcm")
         :: body ++ [(INFO, MsgDone (List.length segs) (len full_text))]).
Proof.
  exact (clean_run_logs_start_and_summary
           Sample.cfg Sample.fs_ten (Sample.answers Sample.privet_mir None)
           Sample.client "a.pcm" true eq_refl).
Defined.

(** ** What the loop reads of a response *)

Lemma loop_body_first_alternative_only save_intermediate st response :
  loop_body save_intermediate st (first_alternative_only response)
  = loop_body save_intermediate st response.
Proof.
  destruct response as [[alts] | [alts] | [[alts]] | field | ];
    try reflexivity; destruct alts as [|a [|a' alts]]; reflexivity.
Qed.

(** X13: of every response the loop reads the first alternative only.
    Cutting all the responses of a stream down to their first alternative
    changes neither what is returned or raised nor a line of the log. *)
Theorem only_first_alternatives_matter
        responses end_ save_intermediate log0 :
  consume {| events := map first_alternative_only responses;
             closing := end_ |} save_intermediate log0
  = consume {| events := responses; closing := end_ |} save_intermediate log0.
Proof.
  unfold consume. cbn [events closing].
  assert (E : forall st,
             run_loop save_intermediate st
                      (map first_alternative_only responses)
             = run_loop save_intermediate st responses).
  { induction responses as [|r rs IH]; intros st; [reflexivity|].
    cbn [map run_loop fold_left]. rewrite loop_body_first_alternative_only.
    apply IH. }
  now rewrite E.
Qed.

Lemma drain_any_client cfg fs self self' audio_file_path fuel : forall st,
  drain cfg fs self audio_file_path fuel st
  = drain cfg fs self' audio_file_path fuel st.
Proof.
  induction fuel as [|fuel IH]; intros st; [reflexivity|].
  cbn [drain].
  change (gen_next cfg fs self' audio_file_path st)
    with (gen_next cfg fs self audio_file_path st).
  destruct (gen_next cfg fs self audio_file_path st) as [[m| |e] st'];
    try reflexivity.
  now rewrite IH.
Qed.

(** X14: the api key reaches a session through the call metadata and in no
    other way: the outbound messages are the same for every key, and over a
    transport that does not look at the metadata two clients get the same
    result and the same log. *)
Theorem api_key_goes_only_into_metadata
        cfg fs RecognizeStreaming self self' audio_file_path save_intermediate :
  (forall endpoint requests metadata metadata',
      RecognizeStreaming endpoint requests metadata
      = RecognizeStreaming endpoint requests metadata') ->
  outbound cfg fs self audio_file_path = outbound cfg fs self' audio_file_path
  /\ transcribe cfg fs RecognizeStreaming self audio_file_path save_intermediate
     = transcribe cfg fs RecognizeStreaming self' audio_file_path
                  save_intermediate.
Proof.
  intros Hblind. split; [apply drain_any_client|].
  unfold transcribe, open_stream. cbv zeta.
  rewrite (Hblind _ _ _ [("authorization", ("Api-Key " ++ api_key self')%string)]).
  reflexivity.
Qed.

Lemma api_key_goes_only_into_metadata_witness :
  transcribe Sample.cfg Sample.fs_ten (Sample.answers Sample.hello_world None)
             Sample.client "a.pcm" false
  = transcribe Sample.cfg Sample.fs_ten (Sample.answers Sample.hello_world None)
               Sample.other_client "a.pcm" false.
Proof.
  exact (proj2 (api_key_goes_only_into_metadata
                  Sample.cfg Sample.fs_ten
                  (Sample.answers Sample.hello_world None)
                  Sample.client Sample.other_client "a.pcm" false
                  (fun _ _ _ _ => eq_refl))).
Defined.

(** ** Further runs *)

(** [len] counts the characters of a Russian text, not its bytes. *)
Example len_counts_code_points :
  len "привет мир" = 10%nat /\ String.length "привет мир" = 19%nat.
Proof. split; reflexivity. Qed.

Example privet_mir_log :
  transcribe Sample.cfg Sample.fs_ten (Sample.answers Sample.privet_mir None)
             Sample.client "a.pcm" true
  = (Return ("привет мир", ["привет"; "мир"]),
     [(INFO, MsgStart "a.pcm");
      (INFO, MsgFinalSegment 1 "привет");
      (DEBUG, MsgIntermediate "ми");
      (INFO, MsgFinalSegment 2 "мир");
      (INFO, MsgDone 2 10)]).
Proof. reflexivity. Qed.

Example read_refuses_minus_two :
  outbound Sample.low_chunk_cfg Sample.fs_ten Sample.client "a.pcm"
  = ([session_options
        (_create_streaming_options Sample.low_chunk_cfg Sample.client)],
     Some (Throw ValueError))
  /\ outbound Sample.low_chunk_cfg Sample.fs_empty Sample.client "silence.pcm"
     = ([session_options
           (_create_streaming_options Sample.low_chunk_cfg Sample.client)],
        Some (Throw ValueError)).
Proof. split; reflexivity. Qed.
